(** * Cash-flow engine: alias registry, value store and the four formulas

    A shallow embedding of [cash_flow_engine.py].

    - A Python [str] is a sequence of Unicode code points: [list N].
      Literals are written as UTF-8 text and decoded by [u].
    - A Python [float] is an IEEE 754 binary64: Rocq's primitive [float].
    - The three dictionaries of [FinancialCalculator] are [gmap]s.
    - A method is a function from the object to an outcome (a value or a
      raised exception), the object afterwards and the lines it printed.
    - [print] writes to a UTF-8 text stream with strict error handling
      (Python's default): a line that holds a surrogate code point is not
      written, the call raises [UnicodeEncodeError]. *)

From Stdlib Require Import NArith List Floats.PrimFloat Lia.
From stdpp Require Import base option list gmap strings.

Open Scope N_scope.

(** ** Strings *)

Abbreviation str := (list N).

(** UTF-8 decoding of a byte sequence, used for literals only. *)
Fixpoint utf8 (bs : list N) : str :=
  match bs with
  | [] => []
  | b0 :: r0 =>
    if b0 <? 128 then b0 :: utf8 r0
    else match r0 with
    | [] => []
    | b1 :: r1 =>
      if b0 <? 224 then ((b0 - 192) * 64 + (b1 - 128)) :: utf8 r1
      else match r1 with
      | [] => []
      | b2 :: r2 =>
        if b0 <? 240
        then ((b0 - 224) * 4096 + (b1 - 128) * 64 + (b2 - 128)) :: utf8 r2
        else match r2 with
        | [] => []
        | b3 :: r3 =>
          ((b0 - 240) * 262144 + (b1 - 128) * 4096
           + (b2 - 128) * 64 + (b3 - 128)) :: utf8 r3
        end
      end
    end
  end.

Definition u (s : string) : str :=
  utf8 (map Ascii.N_of_ascii (String.list_ascii_of_string s)).

(** [str.strip()] without argument removes the code points for which
    CPython's [_PyUnicode_IsWhitespace] holds. *)
Definition is_space (c : N) : bool :=
  ((9 <=? c) && (c <=? 13)) || ((28 <=? c) && (c <=? 32))
  || (c =? 133) || (c =? 160) || (c =? 5760)
  || ((8192 <=? c) && (c <=? 8202))
  || (c =? 8232) || (c =? 8233) || (c =? 8239) || (c =? 8287)
  || (c =? 12288).

Fixpoint lstrip (s : str) : str :=
  match s with
  | [] => []
  | c :: r => if is_space c then lstrip r else s
  end.

Definition rstrip (s : str) : str := rev (lstrip (rev s)).

Definition strip (s : str) : str := rstrip (lstrip s).

(** The surrogate code points U+D800..U+DFFF: a Python [str] may hold
    them, they have no case and no white space among them, and the UTF-8
    codec refuses to encode them. *)
Definition is_surrogate (c : N) : bool := (55296 <=? c) && (c <=? 57343).

(** [s.encode("utf-8")] succeeds. *)
Definition encodable (s : str) : bool :=
  forallb (fun c => negb (is_surrogate c)) s.

(** The part of Unicode whose lower-casing is written out: Basic Latin,
    the Cyrillic letters U+0400..U+045F and the white space. *)
Definition is_cyrillic (c : N) : bool := (1024 <=? c) && (c <=? 1119).

Definition plain (c : N) : bool := (c <? 128) || is_cyrillic c || is_space c.

Definition lower_cp (c : N) : N :=
  if (65 <=? c) && (c <=? 90) then c + 32
  else if (1024 <=? c) && (c <=? 1039) then c + 80
  else if (1040 <=? c) && (c <=? 1071) then c + 32
  else c.

Definition upper_cp (c : N) : N :=
  if (97 <=? c) && (c <=? 122) then c - 32
  else if (1104 <=? c) && (c <=? 1119) then c - 80
  else if (1072 <=? c) && (c <=? 1103) then c - 32
  else c.

(** ** Indicator *)

Module Indicator.
Record t := mk { id : str; display_name : str; aliases : list str }.
End Indicator.

(** ** FinancialCalculator *)

Record FinancialCalculator := mkFC {
  data : gmap str float;
  registry : gmap str Indicator.t;
  alias_map : gmap str str
}.

(** ** Outcomes of a method call *)

(** What [print] writes, one constructor per format string:
    [SetLine d i v] is "Set 'd' (i) = v" and
    [WarnLine n] is "Warning: Unknown indicator 'n', returning 0.0". *)
Inductive Line :=
| SetLine (display_name canonical_id : str) (value : float)
| WarnLine (name : str).

(** The fixed text of a line and the digits of a float are ASCII: a line
    can be encoded when the strings put into it can. *)
Definition line_encodable (l : Line) : bool :=
  match l with
  | SetLine display_name canonical_id _ =>
    encodable display_name && encodable canonical_id
  | WarnLine name => encodable name
  end.

Inductive Exn :=
| ValueError (msg : str)
| KeyError (key : str)
| UnicodeEncodeError (line : Line).

Inductive outcome (A : Type) :=
| Return (a : A)
| Raise (e : Exn).
Arguments Return {A} a.
Arguments Raise {A} e.

(** A method: the object before, to the outcome, the object after and the
    lines printed. An exception keeps the writes made before it. *)
Definition M (A : Type) : Type :=
  FinancialCalculator -> outcome A * FinancialCalculator * list Line.

#[export] Instance M_ret : MRet M := fun A a self => (Return a, self, []).

#[export] Instance M_bind : MBind M := fun A B k m self =>
  match m self with
  | (Return a, self', out) =>
    let '(r, self'', out') := k a self' in (r, self'', out ++ out')
  | (Raise e, self', out) => (Raise e, self', out)
  end.

Definition raise {A} (e : Exn) : M A := fun self => (Raise e, self, []).

(** [print(line)] on a UTF-8 stream: the line is encoded before anything
    is written. *)
Definition print (l : Line) : M unit :=
  fun self =>
    if line_encodable l then (Return tt, self, [l])
    else (Raise (UnicodeEncodeError l), self, []).

Definition gets {A} (f : FinancialCalculator -> A) : M A :=
  fun self => (Return (f self), self, []).

(** [self.data[key] = value] *)
Definition data_setitem (key : str) (value : float) : M unit :=
  fun self =>
    (Return tt,
     mkFC (<[ key := value ]> (data self)) (registry self) (alias_map self),
     []).

(** [self.registry[key]] *)
Definition registry_getitem (key : str) : M Indicator.t :=
  fun self =>
    match registry self !! key with
    | Some ind => (Return ind, self, [])
    | None => (Raise (KeyError key), self, [])
    end.

(** [try: m except Exception: pass]: a client that goes on after a call
    raised. *)
Definition attempt {A} (m : M A) : M unit :=
  fun self => let '(_, self', out) := m self in (Return tt, self', out).

(** [d.get(key, 0.0)] *)
Definition stored (d : gmap str float) (key : str) : float :=
  default 0%float (d !! key).

Definition result {A} (x : outcome A * FinancialCalculator * list Line)
  : outcome A := x.1.1.

Definition after {A} (x : outcome A * FinancialCalculator * list Line)
  : FinancialCalculator := x.1.2.

Definition printed {A} (x : outcome A * FinancialCalculator * list Line)
  : list Line := x.2.

Section Engine.

(** [str.lower()] maps each code point to its full lower-case mapping, one
    position at a time; the mapping of a position may look at the text
    around it (as for U+03A3). Outside the part written out above (and the
    surrogates, which have no case) the mapping is left open:
    [lower_special before c after]. *)
Variable lower_special : str -> N -> str -> str.

Fixpoint lower_from (before s : str) : str :=
  match s with
  | [] => []
  | c :: r =>
    (if plain c || is_surrogate c then [lower_cp c]
     else lower_special before c r)
      ++ lower_from (before ++ [c]) r
  end.

Definition lower (s : str) : str := lower_from [] s.

(** [Indicator.__init__]: the aliases are kept lower-cased and stripped. *)
Definition Indicator_init (id display_name : str) (aliases : list str)
  : Indicator.t :=
  Indicator.mk id display_name (map (fun a => strip (lower a)) aliases).

(** The helper [reg] of [_initialize_registry]. *)
Definition reg (id name : str) (aliases : list str)
    (self : FinancialCalculator) : FinancialCalculator :=
  let ind := Indicator_init id name aliases in
  let r := <[ id := ind ]> (registry self) in
  let m := <[ lower id := id ]> (alias_map self) in
  let m := <[ lower name := id ]> m in
  let m := fold_left (fun m alias => <[ alias := id ]> m)
                     (Indicator.aliases ind) m in
  mkFC (data self) r m.

(** [_initialize_registry]: the fixed catalogue, registered in this order. *)
Definition _initialize_registry (self : FinancialCalculator)
  : FinancialCalculator :=
  let self :=
    reg (u "OperationalCF") (u "Операционный денежный поток")
      [u "delOperationalCF"; u "OCF"; u "delOCF"; u "Operational Cash Flow"] self in
  let self :=
    reg (u "InvestingCF") (u "Инвестиционный денежный поток")
      [u "delInvestingCF"; u "ICF"; u "delICF"; u "Investing Cash Flow"] self in
  let self :=
    reg (u "FinancingCF") (u "Финансовый денежный поток")
      [u "delFinancingCF"; u "FCF"; u "delFCF"; u "Financing Cash Flow"] self in
  let self :=
    reg (u "Cash") (u "Денежные средства")
      [u "delCash"; u "C"; u "delC"; u "Cash"] self in
  let self :=
    reg (u "assets") (u "Активы")
      [u "delAssets"; u "A"; u "delA"; u "Assets"] self in
  let self :=
    reg (u "liabilities") (u "Обязательства")
      [u "delLiabilities"; u "L"; u "delL"; u "Liabilities"] self in
  let self :=
    reg (u "equity") (u "Собственный капитал")
      [u "delEquity"; u "E"; u "delE"; u "Equity"] self in
  let self :=
    reg (u "retained_earnings") (u "Накопленная прибыль")
      [u "delRetainedEarnings"; u "RE"; u "delRE"; u "Retained Earnings"] self in
  let self :=
    reg (u "current_assets") (u "Оборотные активы")
      [u "delCurrentAssets"; u "CA"; u "delCA"; u "Current Assets"] self in
  let self :=
    reg (u "non_current_assets") (u "Внеоборотные активы")
      [u "delNonCurrentAssets"; u "NCA"; u "delNCA"; u "Non-Current Assets"] self in
  let self :=
    reg (u "contributed_capital") (u "Акционерный капитал")
      [u "delContributedCapital"; u "CC"; u "delCC"; u "Contributed Capital"] self in
  let self :=
    reg (u "other_equity") (u "Прочий собственный капитал")
      [u "delOtherEquity"; u "OE"; u "delOE"; u "Other Equity"; u "other_equity"] self in
  let self :=
    reg (u "non-current liabilities") (u "Долгосрочные обязательства")
      [u "delNonCurrentLiabilities"; u "NCL"; u "delNCL"; u "Non-Current Liabilities"; u "non-current_liabilities"] self in
  let self :=
    reg (u "net_income") (u "Чистая прибыль")
      [u "delNetIncome"; u "NI"; u "Net Income"; u "net income"] self in
  let self :=
    reg (u "dividends") (u "Дивиденды")
      [u "delDividends"; u "Div"; u "delDiv"; u "Dividends"] self in
  let self :=
    reg (u "net_accounts_receivable") (u "Дебиторская задолженность (за вычетом резерва по сомнительным долгам и прочих резервов)")
      [u "delNetAccountsReceivable"; u "NetA/R"; u "delNetA/R"; u "Net Accounts Receivable"; u "net accounts receivable"] self in
  let self :=
    reg (u "inventory") (u "Товарно-материальные запасы")
      [u "delInventory"; u "Inv"; u "delInv"; u "Inventory"] self in
  let self :=
    reg (u "other_current_assets") (u "Прочие оборотные активы")
      [u "delOtherCurrentAssets"; u "OCA"; u "delOCA"; u "Other Current Assets"] self in
  let self :=
    reg (u "net_property, plant & equipment") (u "Основные средства (за вычетом накопленной амортизации)")
      [u "delNetPropertyPlantEquipment"; u "NetPPE"; u "delNetPPE"; u "Net Property Plant Equipment"; u "net property plant equipment"] self in
  let self :=
    reg (u "other_non_current_assets") (u "Прочие внеборотные активы")
      [u "delOtherNonCurrentAssets"; u "ONCA"; u "delONCA"; u "Other Non-Current Assets"] self in
  let self :=
    reg (u "depreciation_expence") (u "Амортизация")
      [u "delDepreciationExpence"; u "DE"; u "delDE"; u "DepExp"; u "Depreciation Expence"; u "depreciation_expence"] self in
  reg (u "gain_loss_on_disposal_of_PPE") (u "Прибыль (убыток) от реализации объектов основных средств")
    [u "delGainLossOnDisposalOfPPE"; u "GLODOPPE"; u "Gain(Loss)"; u "delGain(Loss)"; u "Gain Loss On Disposal Of PPE"; u "gain loss on disposal of ppe"] self.

(** [FinancialCalculator.__init__] *)
Definition FinancialCalculator_init : FinancialCalculator :=
  _initialize_registry (mkFC ∅ ∅ ∅).

(** [resolve_name] *)
Definition resolve_name (self : FinancialCalculator) (name : str)
  : option str :=
  alias_map self !! strip (lower name).

(** [set_value]. [not canonical_id] holds for [None] and for the empty
    string. The value is a float already, so [float(value)] is the value. *)
Definition set_value (name : str) (value : float) : M unit :=
  canonical_id ← gets (fun self => resolve_name self name);
  match canonical_id with
  | None | Some [] =>
    raise (ValueError (u "Unknown indicator name: '" ++ name ++ u "'"))
  | Some canonical_id =>
    data_setitem canonical_id value;;
    ind ← registry_getitem canonical_id;
    print (SetLine (Indicator.display_name ind) canonical_id value)
  end.

(** [get_value] *)
Definition get_value (name : str) : M float :=
  canonical_id ← gets (fun self => resolve_name self name);
  match canonical_id with
  | None | Some [] =>
    print (WarnLine name);;
    mret 0%float
  | Some canonical_id =>
    gets (fun self => default 0%float (data self !! canonical_id))
  end.

(** [calculate_operational_cf] *)
Definition calculate_operational_cf : M float :=
  ni ← get_value (u "net_income");
  dep_exp ← get_value (u "depreciation_expence");
  net_ar ← get_value (u "net_accounts_receivable");
  inv ← get_value (u "inventory");
  oca ← get_value (u "other_current_assets");
  cl ← get_value (u "current_liabilities");
  gain_loss ← get_value (u "gain_loss_on_disposal_of_PPE");
  let total_operation_cf :=
    (ni + dep_exp + net_ar - inv - oca + cl - gain_loss)%float in
  data_setitem (u "operation_cf") total_operation_cf;;
  mret total_operation_cf.

(** [calculate_investing_cf] *)
Definition calculate_investing_cf : M float :=
  nppe ← get_value (u "net_property_plant_equipment");
  gain_loss ← get_value (u "gain_loss_on_disposal_of_PPE");
  dep_exp ← get_value (u "depreciation_expence");
  onca ← get_value (u "other_non_current_assets");
  oe ← get_value (u "other_equity");
  let total_investing_cf :=
    (- nppe + gain_loss + dep_exp - onca + oe)%float in
  data_setitem (u "investing_cf") total_investing_cf;;
  mret total_investing_cf.

(** [calculate_financing_cf] *)
Definition calculate_financing_cf : M float :=
  ncl ← get_value (u "non_current_liabilities");
  cc ← get_value (u "contributed_capital");
  div ← get_value (u "dividends");
  let total_financing_cf := (ncl + cc - div)%float in
  data_setitem (u "financing_cf") total_financing_cf;;
  mret total_financing_cf.

(** [calculate_cash] *)
Definition calculate_cash : M float :=
  operation_cf ← get_value (u "operation_cf");
  investing_cf ← get_value (u "investing_cf");
  financing_cf ← get_value (u "financing_cf");
  let total_cash := (operation_cf + investing_cf + financing_cf)%float in
  data_setitem (u "cash") total_cash;;
  mret total_cash.

(** ** Client runs on a new calculator *)

(** The seven inputs of the operating formula set under the names the
    formula reads, then the formula. *)
Definition example_operational_cf : M float :=
  attempt (set_value (u "net_income") 100%float);;
  attempt (set_value (u "depreciation_expence") 20%float);;
  attempt (set_value (u "net_accounts_receivable") 5%float);;
  attempt (set_value (u "inventory") 10%float);;
  attempt (set_value (u "other_current_assets") 3%float);;
  attempt (set_value (u "current_liabilities") 8%float);;
  attempt (set_value (u "gain_loss_on_disposal_of_PPE") 2%float);;
  calculate_operational_cf.

(** Net property, plant and equipment set through its alias "NetPPE",
    then the investing formula. *)
Definition example_investing_cf : M float :=
  set_value (u "NetPPE") 50%float;;
  calculate_investing_cf.

(** Non-current liabilities set through their alias "NCL", then the
    financing formula. *)
Definition example_financing_cf : M float :=
  set_value (u "NCL") 70%float;;
  calculate_financing_cf.

(** Net income set, the three components computed, then the cash total:
    the four numbers returned. *)
Definition example_cash : M (float * float * float * float) :=
  set_value (u "net_income") 100%float;;
  operation_cf ← calculate_operational_cf;
  investing_cf ← calculate_investing_cf;
  financing_cf ← calculate_financing_cf;
  cash ← calculate_cash;
  mret (operation_cf, investing_cf, financing_cf, cash).

(** The calculator as constructed, holding the store [d]. *)
Definition with_data (d : gmap str float) : FinancialCalculator :=
  mkFC d (registry FinancialCalculator_init)
         (alias_map FinancialCalculator_init).

(** ** Calls made by a client, for statements about every run *)

Inductive Call :=
| CallSetValue (name : str) (value : float)
| CallGetValue (name : str)
| CallOperationalCF
| CallInvestingCF
| CallFinancingCF
| CallCash.

Definition run_call (self : FinancialCalculator) (c : Call)
  : FinancialCalculator :=
  match c with
  | CallSetValue name value => after (set_value name value self)
  | CallGetValue name => after (get_value name self)
  | CallOperationalCF => after (calculate_operational_cf self)
  | CallInvestingCF => after (calculate_investing_cf self)
  | CallFinancingCF => after (calculate_financing_cf self)
  | CallCash => after (calculate_cash self)
  end.

Definition run_calls (cs : list Call) (self : FinancialCalculator)
  : FinancialCalculator :=
  fold_left run_call cs self.

(** The keys under which the derived totals are stored. *)
Definition reserved_keys : list str :=
  [u "operation_cf"; u "investing_cf"; u "financing_cf"; u "cash"].

Definition keys_ok (self : FinancialCalculator) : Prop :=
  forall k, is_Some (data self !! k) ->
    is_Some (registry self !! k) \/ k ∈ reserved_keys.

(** ** Spellings of an indicator *)

Definition names (ind : Indicator.t) : list str :=
  Indicator.id ind :: Indicator.display_name ind :: Indicator.aliases ind.

End Engine.

(** ** The catalogue as a table *)

(** The arguments of the calls of [reg] in [_initialize_registry], in the
    order of the calls: id, display name, aliases as written. *)
Definition catalogue : list (str * str * list str) := [
  (u "OperationalCF", u "Операционный денежный поток",
   [u "delOperationalCF"; u "OCF"; u "delOCF"; u "Operational Cash Flow"]);
  (u "InvestingCF", u "Инвестиционный денежный поток",
   [u "delInvestingCF"; u "ICF"; u "delICF"; u "Investing Cash Flow"]);
  (u "FinancingCF", u "Финансовый денежный поток",
   [u "delFinancingCF"; u "FCF"; u "delFCF"; u "Financing Cash Flow"]);
  (u "Cash", u "Денежные средства",
   [u "delCash"; u "C"; u "delC"; u "Cash"]);
  (u "assets", u "Активы",
   [u "delAssets"; u "A"; u "delA"; u "Assets"]);
  (u "liabilities", u "Обязательства",
   [u "delLiabilities"; u "L"; u "delL"; u "Liabilities"]);
  (u "equity", u "Собственный капитал",
   [u "delEquity"; u "E"; u "delE"; u "Equity"]);
  (u "retained_earnings", u "Накопленная прибыль",
   [u "delRetainedEarnings"; u "RE"; u "delRE"; u "Retained Earnings"]);
  (u "current_assets", u "Оборотные активы",
   [u "delCurrentAssets"; u "CA"; u "delCA"; u "Current Assets"]);
  (u "non_current_assets", u "Внеоборотные активы",
   [u "delNonCurrentAssets"; u "NCA"; u "delNCA"; u "Non-Current Assets"]);
  (u "contributed_capital", u "Акционерный капитал",
   [u "delContributedCapital"; u "CC"; u "delCC"; u "Contributed Capital"]);
  (u "other_equity", u "Прочий собственный капитал",
   [u "delOtherEquity"; u "OE"; u "delOE"; u "Other Equity"; u "other_equity"]);
  (u "non-current liabilities", u "Долгосрочные обязательства",
   [u "delNonCurrentLiabilities"; u "NCL"; u "delNCL"; u "Non-Current Liabilities"; u "non-current_liabilities"]);
  (u "net_income", u "Чистая прибыль",
   [u "delNetIncome"; u "NI"; u "Net Income"; u "net income"]);
  (u "dividends", u "Дивиденды",
   [u "delDividends"; u "Div"; u "delDiv"; u "Dividends"]);
  (u "net_accounts_receivable", u "Дебиторская задолженность (за вычетом резерва по сомнительным долгам и прочих резервов)",
   [u "delNetAccountsReceivable"; u "NetA/R"; u "delNetA/R"; u "Net Accounts Receivable"; u "net accounts receivable"]);
  (u "inventory", u "Товарно-материальные запасы",
   [u "delInventory"; u "Inv"; u "delInv"; u "Inventory"]);
  (u "other_current_assets", u "Прочие оборотные активы",
   [u "delOtherCurrentAssets"; u "OCA"; u "delOCA"; u "Other Current Assets"]);
  (u "net_property, plant & equipment", u "Основные средства (за вычетом накопленной амортизации)",
   [u "delNetPropertyPlantEquipment"; u "NetPPE"; u "delNetPPE"; u "Net Property Plant Equipment"; u "net property plant equipment"]);
  (u "other_non_current_assets", u "Прочие внеборотные активы",
   [u "delOtherNonCurrentAssets"; u "ONCA"; u "delONCA"; u "Other Non-Current Assets"]);
  (u "depreciation_expence", u "Амортизация",
   [u "delDepreciationExpence"; u "DE"; u "delDE"; u "DepExp"; u "Depreciation Expence"; u "depreciation_expence"]);
  (u "gain_loss_on_disposal_of_PPE", u "Прибыль (убыток) от реализации объектов основных средств",
   [u "delGainLossOnDisposalOfPPE"; u "GLODOPPE"; u "Gain(Loss)"; u "delGain(Loss)"; u "Gain Loss On Disposal Of PPE"; u "gain loss on disposal of ppe"])
].

#[export] Instance Indicator_eq_dec : EqDecision Indicator.t.
Proof. solve_decision. Defined.

(** A change of letter case, code point by code point. *)
Definition recase (c c' : N) : bool :=
  (c' =? c) || (c' =? upper_cp c) || (c' =? lower_cp c).

Fixpoint case_variant (s s' : str) : bool :=
  match s, s' with
  | [], [] => true
  | c :: r, c' :: r' => recase c c' && case_variant r r'
  | _, _ => false
  end.

Definition spaces (ws : str) : bool := forallb is_space ws.

(** [name] is a spelling of the indicator: its id, its display name or one
    of its aliases, in any letter case, with white space around it. *)
Definition spelling (ind : Indicator.t) (name : str) : Prop :=
  exists s s' ws1 ws2,
    s ∈ names ind /\ case_variant s s' = true
    /\ spaces ws1 = true /\ spaces ws2 = true
    /\ name = ws1 ++ s' ++ ws2.

(** Every id an alias table points at is a key of the registry. *)
Definition check_targets (table : gmap str str)
    (catalogue : gmap str Indicator.t) : bool :=
  bool_decide (map_Forall (fun _ cid => is_Some (catalogue !! cid)) table).

(** The first and the last code point are no white space. *)
Definition ends_ok (t : str) : bool :=
  match t with [] => false | c :: _ => negb (is_space c) end
  && match rev t with [] => false | c :: _ => negb (is_space c) end.

(** What is checked, by evaluation, of each name [s] of the indicator [id]
    against an alias table: [s] is written in Basic Latin and Cyrillic, has
    no white space at its ends, and its lower-cased form is a key for [id]. *)
Definition check_name (table : gmap str str) (id s : str) : bool :=
  forallb plain s && ends_ok (map lower_cp s)
  && bool_decide (table !! map lower_cp s = Some id).

Definition check_indicator (table : gmap str str) (key : str)
    (ind : Indicator.t) : bool :=
  bool_decide (Indicator.id ind = key)
  && negb (bool_decide (key = []))
  && forallb (check_name table key)
       (Indicator.id ind :: Indicator.display_name ind
          :: Indicator.aliases ind).

(** What is checked, by evaluation, of an entry of the catalogue against a
    calculator: the registry holds the indicator built from the entry under
    its id, and [check_name] holds of the id, the display name and every
    alias as written. *)
Definition check_entry (low : str -> str) (self : FinancialCalculator)
    (e : str * str * list str) : bool :=
  let '(id, name, aliases) := e in
  bool_decide (registry self !! id
               = Some (Indicator.mk id name
                         (map (fun a => strip (low a)) aliases)))
  && forallb (check_name (alias_map self) id) (id :: name :: aliases).

(** A closed choice for the open part of [lower], for concrete runs. *)
Definition keep_special : str -> N -> str -> str := fun _ c _ => [c].

(** [k] is, for the indicator that [cid] names in the catalogue, its
    lower-cased id, its lower-cased display name or one of its stored
    aliases. *)
Definition key_of (low : str -> str) (catalogue : gmap str Indicator.t)
    (k cid : str) : bool :=
  match catalogue !! cid with
  | Some ind =>
    bool_decide (Indicator.id ind = cid)
    && bool_decide (k ∈ low (Indicator.id ind)
                      :: low (Indicator.display_name ind)
                      :: Indicator.aliases ind)
  | None => false
  end.

Definition check_keys (low : str -> str) (table : gmap str str)
    (catalogue : gmap str Indicator.t) : bool :=
  bool_decide (map_Forall (fun k cid => key_of low catalogue k cid = true)
                          table).

(** No call of the list is a [set_value]. *)
Definition no_set_value (cs : list Call) : bool :=
  forallb (fun c => match c with CallSetValue _ _ => false | _ => true end)
          cs.

(** * Properties *)

(** ** The string model on the catalogue's own text *)

Example u_cyrillic : u "Активы" = [1040; 1082; 1090; 1080; 1074; 1099].
Proof. reflexivity. Qed.

Example lower_mixed :
  lower keep_special (u "Net A/R Активы") = u "net a/r активы".
Proof. reflexivity. Qed.

Example strip_blanks : strip (u "  non-current liabilities  ")
                       = u "non-current liabilities".
Proof. reflexivity. Qed.

Example resolve_display_name :
  resolve_name keep_special (FinancialCalculator_init keep_special)
    (u " ОБЯЗАТЕЛЬСТВА ") = Some (u "liabilities").
Proof. vm_compute. reflexivity. Qed.

Example resolve_reserved_key :
  resolve_name keep_special (FinancialCalculator_init keep_special)
    (u "operation_cf") = None.
Proof. vm_compute. reflexivity. Qed.

(** ** White space and letter case *)

Lemma is_space_lower_cp c : is_space c = true -> lower_cp c = c.
Proof.
  unfold is_space, lower_cp. intros H.
  rewrite !orb_true_iff, !andb_true_iff, !N.leb_le, !N.eqb_eq in H.
  destruct (N.leb_spec 65 c), (N.leb_spec c 90); simpl; try lia;
    destruct (N.leb_spec 1024 c), (N.leb_spec c 1039); simpl; try lia;
    destruct (N.leb_spec 1040 c), (N.leb_spec c 1071); simpl; lia.
Qed.

Lemma is_space_plain c : is_space c = true -> plain c = true.
Proof. unfold plain. intros ->. apply orb_true_r. Qed.

Lemma lower_cp_cases c :
  ((c < 65 \/ 90 < c) /\ (c < 1024 \/ 1071 < c) /\ lower_cp c = c)
  \/ (65 <= c <= 90 /\ lower_cp c = c + 32)
  \/ (1024 <= c <= 1039 /\ lower_cp c = c + 80)
  \/ (1040 <= c <= 1071 /\ lower_cp c = c + 32).
Proof.
  unfold lower_cp.
  destruct (N.leb_spec 65 c), (N.leb_spec c 90); simpl; try lia;
    destruct (N.leb_spec 1024 c), (N.leb_spec c 1039); simpl; try lia;
    destruct (N.leb_spec 1040 c), (N.leb_spec c 1071); simpl; lia.
Qed.

Lemma upper_cp_cases c :
  ((c < 97 \/ 122 < c) /\ (c < 1072 \/ 1119 < c) /\ upper_cp c = c)
  \/ (97 <= c <= 122 /\ upper_cp c = c - 32)
  \/ (1104 <= c <= 1119 /\ upper_cp c = c - 80)
  \/ (1072 <= c <= 1103 /\ upper_cp c = c - 32).
Proof.
  unfold upper_cp.
  destruct (N.leb_spec 97 c), (N.leb_spec c 122); simpl; try lia;
    destruct (N.leb_spec 1104 c), (N.leb_spec c 1119); simpl; try lia;
    destruct (N.leb_spec 1072 c), (N.leb_spec c 1103); simpl; lia.
Qed.

Lemma plain_ascii c : c < 128 -> plain c = true.
Proof. unfold plain. intros H. apply N.ltb_lt in H. by rewrite H. Qed.

Lemma plain_cyrillic c : 1024 <= c <= 1119 -> plain c = true.
Proof.
  unfold plain, is_cyrillic. intros [H1 H2].
  apply N.leb_le in H1, H2. rewrite H1, H2. simpl.
  by rewrite orb_true_r.
Qed.

Lemma lower_cp_idemp c : lower_cp (lower_cp c) = lower_cp c.
Proof.
  destruct (lower_cp_cases c) as [(_ & _ & E) | [[H E] | [[H E] | [H E]]]];
    rewrite E; [done | | |];
    match goal with |- lower_cp ?x = _ =>
      destruct (lower_cp_cases x) as [(? & ? & E') | [[H' ?] | [[H' ?] | [H' ?]]]]
    end; lia.
Qed.

Lemma lower_cp_upper_cp c : lower_cp (upper_cp c) = lower_cp c.
Proof.
  destruct (upper_cp_cases c) as [(_ & _ & E) | [[H E] | [[H E] | [H E]]]];
    rewrite E; [done | | |];
    destruct (lower_cp_cases c) as [(? & ? & F) | [[? F] | [[? F] | [? F]]]];
    try lia; rewrite F;
    match goal with |- lower_cp ?x = _ =>
      destruct (lower_cp_cases x) as [(? & ? & F') | [[? F'] | [[? F'] | [? F']]]]
    end; lia.
Qed.

Lemma plain_lower_cp c : plain c = true -> plain (lower_cp c) = true.
Proof.
  destruct (lower_cp_cases c) as [(_ & _ & E) | [[H E] | [[H E] | [H E]]]];
    rewrite E; intros Hp; [done | | |].
  - apply plain_ascii. lia.
  - apply plain_cyrillic. lia.
  - apply plain_cyrillic. lia.
Qed.

Lemma plain_upper_cp c : plain c = true -> plain (upper_cp c) = true.
Proof.
  destruct (upper_cp_cases c) as [(_ & _ & E) | [[H E] | [[H E] | [H E]]]];
    rewrite E; intros Hp; [done | | |].
  - apply plain_ascii. lia.
  - apply plain_cyrillic. lia.
  - apply plain_cyrillic. lia.
Qed.

Lemma recase_plain c c' :
  plain c = true -> recase c c' = true ->
  plain c' = true /\ lower_cp c' = lower_cp c.
Proof.
  unfold recase. intros Hp H.
  rewrite !orb_true_iff, !N.eqb_eq in H. destruct H as [[-> | ->] | ->].
  - done.
  - split; [by apply plain_upper_cp | apply lower_cp_upper_cp].
  - split; [by apply plain_lower_cp | apply lower_cp_idemp].
Qed.

Lemma case_variant_plain s : forall s',
  forallb plain s = true -> case_variant s s' = true ->
  forallb plain s' = true /\ map lower_cp s' = map lower_cp s.
Proof.
  induction s as [|c r IH]; intros [|c' r']; simpl; try done.
  rewrite !andb_true_iff. intros [Hc Hr] [Hcc Hv].
  destruct (recase_plain c c' Hc Hcc) as [Hp ->].
  destruct (IH r' Hr Hv) as [Hp' ->]. done.
Qed.

Lemma lstrip_spaces ws s : spaces ws = true -> lstrip (ws ++ s) = lstrip s.
Proof.
  unfold spaces. induction ws as [|c ws IH]; simpl; [done|].
  rewrite andb_true_iff. intros [-> H]. by apply IH.
Qed.

Lemma strip_pad ws1 t ws2 :
  spaces ws1 = true -> spaces ws2 = true -> ends_ok t = true ->
  strip (ws1 ++ t ++ ws2) = t.
Proof.
  unfold ends_ok, strip, rstrip. intros H1 H2.
  rewrite andb_true_iff. intros [Hhd Hlast].
  rewrite lstrip_spaces by done.
  destruct t as [|c t']; [done|].
  assert (lstrip ((c :: t') ++ ws2) = (c :: t') ++ ws2) as ->.
  { simpl. by destruct (is_space c). }
  rewrite rev_app_distr, lstrip_spaces.
  - destruct (rev (c :: t')) as [|d t''] eqn:E; [done|].
    simpl. destruct (is_space d); [done|].
    rewrite <- E. apply rev_involutive.
  - unfold spaces in *. rewrite forallb_forall in *.
    intros x Hx. apply H2. by apply in_rev.
Qed.

Section Properties.

Variable lower_special : str -> N -> str -> str.

#[local] Abbreviation lower := (lower lower_special).
#[local] Abbreviation resolve_name := (resolve_name lower_special).
#[local] Abbreviation set_value := (set_value lower_special).
#[local] Abbreviation get_value := (get_value lower_special).
#[local] Abbreviation init := (FinancialCalculator_init lower_special).
#[local] Abbreviation with_data := (with_data lower_special).

Lemma lower_from_plain s : forall before,
  forallb plain s = true -> lower_from lower_special before s = map lower_cp s.
Proof.
  induction s as [|c r IH]; intros before; simpl; [done|].
  rewrite andb_true_iff. intros [-> Hr]. simpl. by rewrite IH.
Qed.

Lemma lower_plain s : forallb plain s = true -> lower s = map lower_cp s.
Proof. apply lower_from_plain. Qed.

(** ** The registry as constructed *)

Lemma registry_checked :
  map_Forall (fun key ind =>
                check_indicator (alias_map init) key ind = true)
             (registry init).
Proof. apply (bool_decide_unpack _). vm_compute. exact I. Qed.

Lemma alias_targets_registered (a cid : str) :
  alias_map init !! a = Some cid -> is_Some (registry init !! cid).
Proof.
  assert (check_targets (alias_map init) (registry init) = true) as H
    by (vm_compute; reflexivity).
  apply bool_decide_eq_true_1 in H. intros Ha. exact (H a cid Ha).
Qed.

Lemma FinancialCalculator_eta self :
  self = mkFC (data self) (registry self) (alias_map self).
Proof. destruct self. reflexivity. Qed.

Lemma data_init : data init = ∅.
Proof. vm_compute. reflexivity. Qed.

Lemma init_with_data : init = with_data ∅.
Proof. rewrite <- data_init. apply FinancialCalculator_eta. Qed.

(** ** Reads and writes through an unresolved or a resolved name *)

Lemma set_value_unresolved self name value :
  resolve_name self name = None ->
  set_value name value self
  = (Raise (ValueError (u "Unknown indicator name: '" ++ name ++ u "'")),
     self, []).
Proof.
  intros H. unfold set_value, mbind, M_bind, gets, raise.
  cbv beta iota. rewrite H. reflexivity.
Qed.

Lemma get_value_unresolved_any self name :
  resolve_name self name = None ->
  get_value name self
  = if encodable name then (Return 0%float, self, [WarnLine name])
    else (Raise (UnicodeEncodeError (WarnLine name)), self, []).
Proof.
  intros H. unfold get_value, mbind, M_bind, gets, print, mret, M_ret.
  cbv beta iota. rewrite H. unfold line_encodable.
  destruct (encodable name); reflexivity.
Qed.

Lemma get_value_unresolved self name :
  resolve_name self name = None -> encodable name = true ->
  get_value name self = (Return 0%float, self, [WarnLine name]).
Proof.
  intros H He. rewrite (get_value_unresolved_any self name H), He.
  reflexivity.
Qed.

Lemma get_value_resolved self name c cid :
  resolve_name self name = Some (c :: cid) ->
  get_value name self
  = (Return (default 0%float (data self !! (c :: cid))), self, []).
Proof.
  intros H. unfold get_value, mbind, M_bind, gets.
  cbv beta iota. rewrite H. reflexivity.
Qed.

Lemma get_value_after self name : after (get_value name self) = self.
Proof.
  unfold get_value, mbind, M_bind, gets, print, mret, M_ret, after.
  cbv beta iota.
  destruct (resolve_name self name) as [[|c cid]|];
    try reflexivity; destruct (line_encodable (WarnLine name)); reflexivity.
Qed.



(** C10. When the name does not resolve, [set_value] raises and leaves the
    whole object, the value store included, as it was. *)
Theorem set_value_unknown_keeps_store self name value :
  resolve_name self name = None ->
  (exists e, result (set_value name value self) = Raise e)
  /\ after (set_value name value self) = self
  /\ data (after (set_value name value self)) = data self.
Proof.
  intros H. rewrite set_value_unresolved by done. eauto.
Qed.

(** ** Every spelling of an indicator resolves to its id *)

Lemma map_lower_cp_spaces ws : spaces ws = true -> map lower_cp ws = ws.
Proof.
  unfold spaces. induction ws as [|c ws IH]; simpl; [reflexivity|].
  rewrite andb_true_iff. intros [Hc Hr].
  rewrite (is_space_lower_cp c Hc), IH; auto.
Qed.

Lemma spaces_plain ws : spaces ws = true -> forallb plain ws = true.
Proof.
  unfold spaces. rewrite !forallb_forall.
  intros H x Hx. apply is_space_plain, H, Hx.
Qed.

(** Lower-casing and stripping a padded case variant of [s] gives the
    lower-cased [s]. *)
Lemma strip_lower_variant s s' ws1 ws2 :
  forallb plain s = true -> ends_ok (map lower_cp s) = true ->
  case_variant s s' = true ->
  spaces ws1 = true -> spaces ws2 = true ->
  strip (lower (ws1 ++ s' ++ ws2)) = map lower_cp s.
Proof.
  intros Hplain Hends Hv H1 H2.
  destruct (case_variant_plain s s' Hplain Hv) as [Hplain' Hlow].
  rewrite lower_plain.
  - rewrite !map_app, Hlow.
    rewrite (map_lower_cp_spaces ws1 H1), (map_lower_cp_spaces ws2 H2).
    apply strip_pad; assumption.
  - rewrite !forallb_app, Hplain'.
    rewrite (spaces_plain ws1 H1), (spaces_plain ws2 H2). reflexivity.
Qed.

Lemma resolve_name_spelling key ind s s' ws1 ws2 :
  registry init !! key = Some ind ->
  s ∈ names ind ->
  case_variant s s' = true ->
  spaces ws1 = true -> spaces ws2 = true ->
  Indicator.id ind = key /\ key <> []
  /\ forall d, resolve_name (with_data d) (ws1 ++ s' ++ ws2) = Some key.
Proof.
  intros Hreg Hs Hv H1 H2.
  pose proof (registry_checked key ind Hreg) as Hc.
  clear Hreg. unfold check_indicator in Hc.
  apply andb_true_iff in Hc as [Hc Hall].
  apply andb_true_iff in Hc as [Hid Hne].
  apply bool_decide_eq_true_1 in Hid.
  apply negb_true_iff, bool_decide_eq_false_1 in Hne.
  split; [exact Hid|]. split; [exact Hne|]. intros d.
  rewrite forallb_forall in Hall.
  apply list_elem_of_In in Hs. specialize (Hall s Hs).
  unfold check_name in Hall.
  apply andb_true_iff in Hall as [Hall Hlook].
  apply andb_true_iff in Hall as [Hplain Hends].
  apply bool_decide_eq_true_1 in Hlook.
  unfold resolve_name, with_data, alias_map at 1.
  rewrite (strip_lower_variant s s' ws1 ws2 Hplain Hends Hv H1 H2).
  exact Hlook.
Qed.

Lemma initialize_registry_catalogue self :
  _initialize_registry lower_special self
  = fold_left (fun self '(id, name, aliases) =>
                 reg lower_special id name aliases self)
              catalogue self.
Proof.
  unfold _initialize_registry, catalogue.
  cbv beta iota zeta delta [fold_left]. reflexivity.
Qed.

Lemma check_entry_true (self : FinancialCalculator) (id name : str)
    (aliases : list str) :
  check_entry lower self (id, name, aliases) = true ->
  registry self !! id = Some (Indicator_init lower_special id name aliases)
  /\ forall s, s ∈ id :: name :: aliases ->
       forallb plain s = true /\ ends_ok (map lower_cp s) = true
       /\ alias_map self !! map lower_cp s = Some id.
Proof.
  unfold check_entry. intros Hc. apply andb_true_iff in Hc as [Hreg Hall].
  apply bool_decide_eq_true_1 in Hreg. split; [exact Hreg|].
  rewrite forallb_forall in Hall. intros s Hs.
  apply list_elem_of_In in Hs. specialize (Hall s Hs).
  unfold check_name in Hall.
  apply andb_true_iff in Hall as [Hall Hlook].
  apply andb_true_iff in Hall as [Hplain Hends].
  apply bool_decide_eq_true_1 in Hlook. auto.
Qed.

Lemma catalogue_checked :
  forallb (check_entry lower init) catalogue = true.
Proof. vm_compute. reflexivity. Qed.

Lemma catalogue_entry_checked (e : str * str * list str) :
  e ∈ catalogue -> check_entry lower init e = true.
Proof.
  intros He. pose proof catalogue_checked as Hc.
  rewrite forallb_forall in Hc. apply Hc, list_elem_of_In, He.
Qed.

(** C6. For every indicator registered at construction (every entry of the
    catalogue: the registry holds it under its id), every string that is
    its id, its display name or one of its aliases as written in the
    source, in any letter case and with any white space around it, resolves
    to the indicator's id. *)
Theorem alias_idempotence (id name : str) (aliases : list str)
    (s s' ws1 ws2 : str) :
  (id, name, aliases) ∈ catalogue ->
  s ∈ id :: name :: aliases ->
  case_variant s s' = true ->
  spaces ws1 = true -> spaces ws2 = true ->
  registry init !! id = Some (Indicator_init lower_special id name aliases)
  /\ resolve_name init (ws1 ++ s' ++ ws2) = Some id.
Proof.
  intros He Hs Hv H1 H2.
  destruct (check_entry_true init id name aliases
              (catalogue_entry_checked _ He)) as [Hreg Hall].
  split; [exact Hreg|].
  destruct (Hall s Hs) as (Hplain & Hends & Hlook).
  unfold resolve_name.
  rewrite (strip_lower_variant s s' ws1 ws2 Hplain Hends Hv H1 H2).
  exact Hlook.
Qed.

(** ** Writing, then reading *)

Lemma plain_not_surrogate c : plain c = true -> is_surrogate c = false.
Proof.
  unfold plain, is_cyrillic, is_space, is_surrogate. intros H.
  rewrite !orb_true_iff, !andb_true_iff, !N.leb_le, !N.eqb_eq, N.ltb_lt in H.
  destruct (N.leb_spec 55296 c); [|reflexivity].
  destruct (N.leb_spec c 57343); [|reflexivity]. lia.
Qed.

Lemma plain_encodable s : forallb plain s = true -> encodable s = true.
Proof.
  unfold encodable. rewrite !forallb_forall. intros H c Hc.
  by rewrite (plain_not_surrogate c (H c Hc)).
Qed.

Lemma registered_encodable key ind :
  registry init !! key = Some ind ->
  encodable (Indicator.display_name ind) = true /\ encodable key = true.
Proof.
  intros Hreg. pose proof (registry_checked key ind Hreg) as Hc.
  unfold check_indicator in Hc.
  apply andb_true_iff in Hc as [Hc Hall].
  apply andb_true_iff in Hc as [Hid _].
  apply bool_decide_eq_true_1 in Hid. rewrite forallb_forall in Hall.
  assert (forall s, In s (Indicator.id ind :: Indicator.display_name ind
                            :: Indicator.aliases ind) ->
                    encodable s = true) as Hs.
  { intros s Hin. specialize (Hall s Hin). unfold check_name in Hall.
    apply andb_true_iff in Hall as [Hall _].
    apply andb_true_iff in Hall as [Hplain _].
    apply plain_encodable, Hplain. }
  split.
  - apply Hs. right. left. reflexivity.
  - rewrite <- Hid. apply Hs. left. reflexivity.
Qed.

Lemma set_value_resolved d name key ind value :
  resolve_name (with_data d) name = Some key -> key <> [] ->
  registry init !! key = Some ind ->
  set_value name value (with_data d)
  = (Return tt, with_data (<[ key := value ]> d),
     [SetLine (Indicator.display_name ind) key value]).
Proof.
  intros H Hne Hreg. unfold set_value, mbind, M_bind, gets.
  cbv beta iota. rewrite H. destruct key as [|c key]; [congruence|].
  unfold data_setitem, registry_getitem, print. cbv beta iota.
  unfold registry at 1 2, with_data at 1 2. cbv beta iota.
  rewrite Hreg. unfold line_encodable.
  destruct (registered_encodable (c :: key) ind Hreg) as [-> ->].
  reflexivity.
Qed.

Lemma resolve_spelling (ind : Indicator.t) (key name : str) :
  registry init !! key = Some ind -> spelling ind name ->
  key <> [] /\ forall d, resolve_name (with_data d) name = Some key.
Proof.
  intros Hreg (s & s' & ws1 & ws2 & Hs & Hv & H1 & H2 & ->).
  destruct (resolve_name_spelling key ind s s' ws1 ws2 Hreg Hs Hv H1 H2)
    as (_ & Hne & Hres).
  split; assumption.
Qed.

(** C7. For every registered indicator and every two of its spellings
    [a1] and [a2], on every store: [set_value a1 v] succeeds, and
    [get_value a2] afterwards returns exactly [v]. *)
Theorem round_trip (key : str) (ind : Indicator.t) (a1 a2 : str)
    (v : float) (d : gmap str float) :
  registry init !! key = Some ind ->
  spelling ind a1 -> spelling ind a2 ->
  result (set_value a1 v (with_data d)) = Return tt
  /\ result (get_value a2 (after (set_value a1 v (with_data d)))) = Return v.
Proof.
  intros Hreg Ha1 Ha2.
  destruct (resolve_spelling ind key a1 Hreg Ha1) as [Hne H1].
  destruct (resolve_spelling ind key a2 Hreg Ha2) as [_ H2].
  rewrite (set_value_resolved d a1 key ind v (H1 d) Hne Hreg).
  split; [reflexivity|]. unfold after, result. cbn [fst snd].
  destruct key as [|c key]; [congruence|].
  rewrite (get_value_resolved _ a2 c key (H2 _)). cbn [fst snd].
  unfold data at 1, with_data at 1.
  rewrite lookup_insert_eq. reflexivity.
Qed.

(** ** The keys of the value store *)

Lemma get_value_shape self name :
  encodable name = true ->
  exists x out, get_value name self = (Return x, self, out).
Proof.
  intros He.
  unfold get_value, mbind, M_bind, gets, print, mret, M_ret, line_encodable.
  cbv beta iota. rewrite He.
  destruct (resolve_name self name) as [[|c cid]|]; eauto.
Qed.

Ltac step_get_value :=
  match goal with
  | |- context [get_value ?name ?self] =>
    let x := fresh "x" in
    let out := fresh "out" in
    let E := fresh "E" in
    destruct (get_value_shape self name) as (x & out & E);
    [vm_compute; reflexivity|];
    rewrite E; clear E; cbv beta iota
  end.

Lemma keys_ok_insert_reserved d key value :
  key ∈ reserved_keys -> keys_ok (with_data d) ->
  keys_ok (with_data (<[ key := value ]> d)).
Proof.
  intros Hk Hok k. unfold data at 1, registry at 1, with_data.
  intros Hsome. destruct (decide (key = k)) as [<- | Hne].
  - right. exact Hk.
  - rewrite lookup_insert_ne in Hsome by exact Hne. exact (Hok k Hsome).
Qed.

Lemma keys_ok_insert_registered d key value :
  is_Some (registry init !! key) -> keys_ok (with_data d) ->
  keys_ok (with_data (<[ key := value ]> d)).
Proof.
  intros Hk Hok k. unfold data at 1, registry at 1, with_data.
  intros Hsome. destruct (decide (key = k)) as [<- | Hne].
  - left. exact Hk.
  - rewrite lookup_insert_ne in Hsome by exact Hne. exact (Hok k Hsome).
Qed.

Lemma set_value_keys_ok d name value :
  keys_ok (with_data d) ->
  exists d', after (set_value name value (with_data d)) = with_data d'
             /\ keys_ok (with_data d').
Proof.
  intros Hok.
  destruct (resolve_name (with_data d) name) as [[|c cid]|] eqn:E.
  - exists d. split; [|exact Hok].
    unfold set_value, mbind, M_bind, gets, raise.
    cbv beta iota. rewrite E. reflexivity.
  - pose proof E as Ha.
    unfold resolve_name, alias_map at 1,
      with_data at 1 in Ha.
    pose proof (alias_targets_registered _ _ Ha) as Hreg.
    destruct Hreg as [ind Hreg].
    exists (<[ (c :: cid) := value ]> d). split.
    + rewrite (set_value_resolved d name (c :: cid) ind value E);
        [reflexivity | congruence | exact Hreg].
    + apply keys_ok_insert_registered; [eauto | exact Hok].
  - exists d. split; [|exact Hok].
    rewrite set_value_unresolved by exact E. reflexivity.
Qed.

Lemma run_call_keys_ok d c :
  keys_ok (with_data d) ->
  exists d', run_call lower_special (with_data d) c = with_data d'
             /\ keys_ok (with_data d').
Proof.
  intros Hok. destruct c as [name value | name | | | |];
    unfold run_call.
  - apply set_value_keys_ok, Hok.
  - exists d. rewrite get_value_after. split; [reflexivity | exact Hok].
  - unfold calculate_operational_cf, mbind, M_bind. cbv beta iota.
    repeat step_get_value. unfold data_setitem, mret, M_ret, after.
    cbv beta iota. cbn [fst snd]. eexists. split; [reflexivity|].
    apply keys_ok_insert_reserved; [|exact Hok].
    apply list_elem_of_In. vm_compute. auto.
  - unfold calculate_investing_cf, mbind, M_bind. cbv beta iota.
    repeat step_get_value. unfold data_setitem, mret, M_ret, after.
    cbv beta iota. cbn [fst snd]. eexists. split; [reflexivity|].
    apply keys_ok_insert_reserved; [|exact Hok].
    apply list_elem_of_In. vm_compute. auto.
  - unfold calculate_financing_cf, mbind, M_bind. cbv beta iota.
    repeat step_get_value. unfold data_setitem, mret, M_ret, after.
    cbv beta iota. cbn [fst snd]. eexists. split; [reflexivity|].
    apply keys_ok_insert_reserved; [|exact Hok].
    apply list_elem_of_In. vm_compute. auto.
  - unfold calculate_cash, mbind, M_bind. cbv beta iota.
    repeat step_get_value. unfold data_setitem, mret, M_ret, after.
    cbv beta iota. cbn [fst snd]. eexists. split; [reflexivity|].
    apply keys_ok_insert_reserved; [|exact Hok].
    apply list_elem_of_In. vm_compute. auto.
Qed.

Lemma run_calls_keys_ok cs : forall d,
  keys_ok (with_data d) ->
  keys_ok (run_calls lower_special cs (with_data d)).
Proof.
  unfold run_calls. induction cs as [|c cs IH]; intros d Hok; [exact Hok|].
  cbn [fold_left].
  destruct (run_call_keys_ok d c Hok) as (d' & -> & Hok').
  apply IH, Hok'.
Qed.

(** C9. After any sequence of calls on a new calculator, whether they
    succeed or raise, every key of the value store is an id of the registry
    or one of the four reserved keys of the derived totals. *)
Theorem store_keys_invariant (cs : list Call) :
  keys_ok (run_calls lower_special cs init).
Proof.
  rewrite init_with_data. apply run_calls_keys_ok.
  intros k [x Hx]. unfold data, with_data in Hx.
  rewrite lookup_empty in Hx. discriminate.
Qed.

(** ** The four formulas on the calculator as constructed *)

(** Replaces the next [get_value name (with_data d)] by what it returns,
    after evaluating the lookup of [name] in the alias table. *)
Ltac eval_get_value :=
  match goal with
  | |- context [get_value ?name (with_data ?d)] =>
    let r := eval vm_compute in (resolve_name (with_data d) name) in
    lazymatch r with
    | None =>
      rewrite (get_value_unresolved (with_data d) name)
        by (vm_compute; reflexivity)
    | Some (?c :: ?cid) =>
      rewrite (get_value_resolved (with_data d) name c cid)
        by (vm_compute; reflexivity)
    end; cbv beta iota
  end.

(** C1. [calculate_cash] reads the three components back through
    [get_value], and none of the keys they are stored under is a name of the
    alias table: on every store it returns 0.0. In the run
    [example_cash] the components are 100, 0 and 0, the store holds 100
    under "operation_cf", and the cash total returned is 0, not their sum. *)
Theorem calculate_cash_ignores_components :
  (forall d, result (calculate_cash lower_special (with_data d))
             = Return 0%float)
  /\ result (example_cash lower_special init)
     = Return (100%float, 0%float, 0%float, 0%float)
  /\ data (after (example_cash lower_special init)) !! u "operation_cf"
     = Some 100%float
  /\ (100 + 0 + 0)%float <> 0%float.
Proof.
  split; [|split; [|split]].
  - intros d. unfold calculate_cash, mbind, M_bind. cbv beta iota.
    repeat eval_get_value. reflexivity.
  - vm_compute. reflexivity.
  - vm_compute. reflexivity.
  - intros E. apply (f_equal (fun x => PrimFloat.ltb 0 x)) in E.
    vm_compute in E. discriminate.
Qed.

(** C2. [calculate_operational_cf] reads its sixth term under
    "current_liabilities", a name the catalogue does not register: on every
    store the term is 0.0, and [set_value] under that name raises. In the
    run [example_operational_cf], where the seven inputs are 100, 20, 5,
    10, 3, 8 and 2, it returns 110, not 118. The result is stored under
    "operation_cf". *)
Theorem operational_cf_drops_current_liabilities :
  (forall d,
     result (calculate_operational_cf lower_special (with_data d))
     = Return (stored d (u "net_income") + stored d (u "depreciation_expence")
               + stored d (u "net_accounts_receivable")
               - stored d (u "inventory")
               - stored d (u "other_current_assets")
               + 0 - stored d (u "gain_loss_on_disposal_of_PPE"))%float)
  /\ (forall d v, exists e,
        set_value (u "current_liabilities") v (with_data d)
        = (Raise e, with_data d, []))
  /\ result (example_operational_cf lower_special init) = Return 110%float
  /\ data (after (example_operational_cf lower_special init))
       !! u "operation_cf" = Some 110%float
  /\ (100 + 20 + 5 - 10 - 3 + 8 - 2)%float = 118%float
  /\ 110%float <> 118%float.
Proof.
  split; [|split; [|split; [|split; [|split]]]].
  - intros d. unfold calculate_operational_cf, mbind, M_bind.
    cbv beta iota. repeat eval_get_value. reflexivity.
  - intros d v. eexists. apply set_value_unresolved.
    vm_compute. reflexivity.
  - vm_compute. reflexivity.
  - vm_compute. reflexivity.
  - vm_compute. reflexivity.
  - intros E. apply (f_equal (fun x => PrimFloat.ltb 110 x)) in E.
    vm_compute in E. discriminate.
Qed.

(** C3. [calculate_investing_cf] reads its first term under
    "net_property_plant_equipment", which is no name of the indicator
    registered as "net_property, plant & equipment": on every store the
    term is 0.0. In the run [example_investing_cf] the store holds 50 for
    that indicator and the formula returns 0, not -50. The result is
    stored under "investing_cf". *)
Theorem investing_cf_drops_net_ppe :
  (forall d,
     result (calculate_investing_cf lower_special (with_data d))
     = Return (- 0 + stored d (u "gain_loss_on_disposal_of_PPE")
               + stored d (u "depreciation_expence")
               - stored d (u "other_non_current_assets")
               + stored d (u "other_equity"))%float)
  /\ result (example_investing_cf lower_special init) = Return 0%float
  /\ data (after (example_investing_cf lower_special init))
       !! u "net_property, plant & equipment" = Some 50%float
  /\ data (after (example_investing_cf lower_special init))
       !! u "investing_cf" = Some 0%float
  /\ (- 50 + 0 + 0 - 0 + 0)%float <> 0%float.
Proof.
  split; [|split; [|split; [|split]]].
  - intros d. unfold calculate_investing_cf, mbind, M_bind.
    cbv beta iota. repeat eval_get_value. reflexivity.
  - vm_compute. reflexivity.
  - vm_compute. reflexivity.
  - vm_compute. reflexivity.
  - intros E. apply (f_equal (fun x => PrimFloat.ltb x 0)) in E.
    vm_compute in E. discriminate.
Qed.

(** C4. [calculate_financing_cf] reads its first term under
    "non_current_liabilities", which is no name of the indicator registered
    as "non-current liabilities": on every store the term is 0.0. In the
    run [example_financing_cf] the store holds 70 for that indicator and
    the formula returns 0, not 70. The result is stored under
    "financing_cf". *)
Theorem financing_cf_drops_non_current_liabilities :
  (forall d,
     result (calculate_financing_cf lower_special (with_data d))
     = Return (0 + stored d (u "contributed_capital")
               - stored d (u "dividends"))%float)
  /\ result (example_financing_cf lower_special init) = Return 0%float
  /\ data (after (example_financing_cf lower_special init))
       !! u "non-current liabilities" = Some 70%float
  /\ data (after (example_financing_cf lower_special init))
       !! u "financing_cf" = Some 0%float
  /\ (70 + 0 - 0)%float <> 0%float.
Proof.
  split; [|split; [|split; [|split]]].
  - intros d. unfold calculate_financing_cf, mbind, M_bind.
    cbv beta iota. repeat eval_get_value. reflexivity.
  - vm_compute. reflexivity.
  - vm_compute. reflexivity.
  - vm_compute. reflexivity.
  - intros E. apply (f_equal (fun x => PrimFloat.ltb 0 x)) in E.
    vm_compute in E. discriminate.
Qed.

End Properties.





(** C10 at the name "current_liabilities" on a store that holds a value. *)
Lemma set_value_unknown_keeps_store_witness :
  resolve_name keep_special
    (with_data keep_special (<[ u "inventory" := 10%float ]> ∅))
    (u "current_liabilities") = None
  /\ (exists e,
       result (set_value keep_special (u "current_liabilities") 8%float
                 (with_data keep_special (<[ u "inventory" := 10%float ]> ∅)))
       = Raise e)
  /\ after (set_value keep_special (u "current_liabilities") 8%float
              (with_data keep_special (<[ u "inventory" := 10%float ]> ∅)))
     = with_data keep_special (<[ u "inventory" := 10%float ]> ∅)
  /\ data (after (set_value keep_special (u "current_liabilities") 8%float
              (with_data keep_special (<[ u "inventory" := 10%float ]> ∅))))
     = data (with_data keep_special (<[ u "inventory" := 10%float ]> ∅)).
Proof.
  split; [vm_compute; reflexivity|].
  apply (set_value_unknown_keeps_store keep_special
           (with_data keep_special (<[ u "inventory" := 10%float ]> ∅))
           (u "current_liabilities") 8%float).
  vm_compute; reflexivity.
Defined.

(** C6 at the alias "OCF" of the first entry, in small letters, between
    blanks. *)
Lemma alias_idempotence_witness :
  registry (FinancialCalculator_init keep_special) !! u "OperationalCF"
  = Some (Indicator_init keep_special (u "OperationalCF")
            (u "Операционный денежный поток")
            [u "delOperationalCF"; u "OCF"; u "delOCF";
             u "Operational Cash Flow"])
  /\ resolve_name keep_special (FinancialCalculator_init keep_special)
       (u "  " ++ u "ocf" ++ u " ")
     = Some (u "OperationalCF").
Proof.
  apply (alias_idempotence keep_special (u "OperationalCF")
           (u "Операционный денежный поток")
           [u "delOperationalCF"; u "OCF"; u "delOCF";
            u "Operational Cash Flow"]
           (u "OCF") (u "ocf") (u "  ") (u " ")).
  - apply list_elem_of_In. unfold catalogue. left. reflexivity.
  - apply list_elem_of_In. vm_compute. auto 10.
  - vm_compute; reflexivity.
  - vm_compute; reflexivity.
  - vm_compute; reflexivity.
Defined.

(** C7 at "NI" for the write and " Net Income " for the read. *)
Lemma round_trip_witness :
  result (set_value keep_special (u "NI") 100%float
            (with_data keep_special ∅)) = Return tt
  /\ result (get_value keep_special (u " Net Income ")
               (after (set_value keep_special (u "NI") 100%float
                         (with_data keep_special ∅))))
     = Return 100%float.
Proof.
  apply (round_trip keep_special (u "net_income")
           (Indicator_init keep_special (u "net_income") (u "Чистая прибыль")
              [u "delNetIncome"; u "NI"; u "Net Income"; u "net income"])
           (u "NI") (u " Net Income ") 100%float ∅).
  - vm_compute; reflexivity.
  - exists (u "ni"), (u "NI"), [], [].
    split; [apply list_elem_of_In; vm_compute; auto 10|].
    repeat split; vm_compute; reflexivity.
  - exists (u "net income"), (u "Net Income"), (u " "), (u " ").
    split; [apply list_elem_of_In; vm_compute; auto 10|].
    repeat split; vm_compute; reflexivity.
Defined.


(** * Further properties of the code *)

(** ** Stripping in general *)

Lemma spaces_app ws1 ws2 :
  spaces (ws1 ++ ws2) = spaces ws1 && spaces ws2.
Proof. unfold spaces. apply forallb_app. Qed.

Lemma spaces_rev ws : spaces (rev ws) = spaces ws.
Proof.
  induction ws as [|c ws IH]; [reflexivity|].
  cbn [rev]. rewrite spaces_app, IH. unfold spaces. simpl.
  rewrite andb_true_r. apply andb_comm.
Qed.

Lemma lstrip_nil_spaces t : lstrip t = [] -> spaces t = true.
Proof.
  unfold spaces. induction t as [|c t IH]; simpl; [reflexivity|].
  destruct (is_space c); [exact IH | discriminate].
Qed.

Lemma lstrip_app t w : lstrip t <> [] -> lstrip (t ++ w) = lstrip t ++ w.
Proof.
  induction t as [|c t IH]; simpl; [congruence|].
  destruct (is_space c); [exact IH | reflexivity].
Qed.

Lemma rstrip_spaces t ws : spaces ws = true -> rstrip (t ++ ws) = rstrip t.
Proof.
  intros H. unfold rstrip. rewrite rev_app_distr, lstrip_spaces.
  - reflexivity.
  - rewrite spaces_rev. exact H.
Qed.

Lemma strip_padding ws1 t ws2 :
  spaces ws1 = true -> spaces ws2 = true ->
  strip (ws1 ++ t ++ ws2) = strip t.
Proof.
  intros H1 H2. unfold strip. rewrite lstrip_spaces by exact H1.
  destruct (lstrip t) as [|c r] eqn:E.
  - rewrite <- (app_nil_r (t ++ ws2)), lstrip_spaces; [reflexivity|].
    rewrite spaces_app, H2, (lstrip_nil_spaces t E). reflexivity.
  - rewrite lstrip_app by (rewrite E; discriminate).
    rewrite E. apply rstrip_spaces, H2.
Qed.

Section Further.

Variable lower_special : str -> N -> str -> str.

#[local] Abbreviation lower := (lower lower_special).
#[local] Abbreviation resolve_name := (resolve_name lower_special).
#[local] Abbreviation set_value := (set_value lower_special).
#[local] Abbreviation get_value := (get_value lower_special).
#[local] Abbreviation init := (FinancialCalculator_init lower_special).
#[local] Abbreviation with_data := (with_data lower_special).
#[local] Abbreviation reg := (reg lower_special).

(** ** Names are compared up to letter case and outer white space *)

(** X1. For every calculator, whatever its alias table: a name written in
    Basic Latin, the Cyrillic letters U+0400..U+045F and white space (the
    code points for which [plain] holds) resolves the same in any letter
    case and with any white space around it, whether it is registered or
    not. *)
Theorem resolve_name_case_padding (self : FinancialCalculator)
    (s s' ws1 ws2 : str) :
  forallb plain s = true ->
  case_variant s s' = true ->
  spaces ws1 = true -> spaces ws2 = true ->
  resolve_name self (ws1 ++ s' ++ ws2) = resolve_name self s.
Proof.
  intros Hplain Hv H1 H2. unfold resolve_name. f_equal.
  destruct (case_variant_plain s s' Hplain Hv) as [Hplain' Hlow].
  rewrite (lower_plain lower_special s Hplain).
  rewrite (lower_plain lower_special).
  - rewrite !map_app, Hlow.
    rewrite (map_lower_cp_spaces ws1 H1), (map_lower_cp_spaces ws2 H2).
    apply strip_padding; assumption.
  - rewrite !forallb_app, Hplain'.
    rewrite (spaces_plain ws1 H1), (spaces_plain ws2 H2). reflexivity.
Qed.

(** ** What one registration does *)

Lemma fold_insert_lookup_ne (id : str) (l : list str) :
  forall (m : gmap str str) (k : str),
    k ∉ l ->
    fold_left (fun m alias => <[ alias := id ]> m) l m !! k = m !! k.
Proof.
  induction l as [|a l IH]; intros m k Hk; [reflexivity|].
  cbn [fold_left]. apply not_elem_of_cons in Hk as [Hne Hk].
  rewrite IH by exact Hk. apply lookup_insert_ne. congruence.
Qed.

Lemma fold_insert_lookup (id : str) (l : list str) :
  forall (m : gmap str str) (k : str),
    k ∈ l ->
    fold_left (fun m alias => <[ alias := id ]> m) l m !! k = Some id.
Proof.
  induction l as [|a l IH]; intros m k Hk; [by apply elem_of_nil in Hk|].
  cbn [fold_left]. destruct (decide (k ∈ l)) as [Hin | Hnin].
  - apply IH, Hin.
  - rewrite fold_insert_lookup_ne by exact Hnin.
    apply elem_of_cons in Hk as [-> | Hk]; [|contradiction].
    apply lookup_insert_eq.
Qed.

Lemma reg_alias_map_lookup (id name : str) (aliases : list str)
    (self : FinancialCalculator) (k : str) :
  alias_map (reg id name aliases self) !! k
  = if decide (k ∈ lower id :: lower name
                 :: map (fun a => strip (lower a)) aliases)
    then Some id
    else alias_map self !! k.
Proof.
  unfold reg, Indicator_init. cbv zeta. cbn [alias_map Indicator.aliases].
  destruct (decide (k ∈ map (fun a => strip (lower a)) aliases))
    as [Hal | Hal].
  - rewrite fold_insert_lookup by exact Hal.
    rewrite decide_True; [reflexivity|].
    apply elem_of_cons. right. apply elem_of_cons. right. exact Hal.
  - rewrite fold_insert_lookup_ne by exact Hal.
    destruct (decide (k = lower name)) as [-> | Hname].
    + rewrite lookup_insert_eq, decide_True; [reflexivity|].
      apply elem_of_cons. right. apply elem_of_cons. left. reflexivity.
    + rewrite lookup_insert_ne by congruence.
      destruct (decide (k = lower id)) as [-> | Hid].
      * rewrite lookup_insert_eq, decide_True; [reflexivity|].
        apply elem_of_cons. left. reflexivity.
      * rewrite lookup_insert_ne by congruence.
        rewrite decide_False; [reflexivity|].
        intros [? | [? | ?]%elem_of_cons]%elem_of_cons; contradiction.
Qed.

(** X2. The whole effect of [reg id name aliases] on any calculator: the
    value store is untouched, the registry gets the new indicator under
    [id], and the alias table maps the lower-cased id, the lower-cased
    display name and every normalised alias to [id], overwriting whatever
    they pointed at, and keeps every other key. *)
Theorem reg_effect (id name : str) (aliases : list str)
    (self : FinancialCalculator) :
  data (reg id name aliases self) = data self
  /\ registry (reg id name aliases self)
     = <[ id := Indicator_init lower_special id name aliases ]>
         (registry self)
  /\ forall k : str,
       alias_map (reg id name aliases self) !! k
       = if decide (k ∈ lower id :: lower name
                      :: map (fun a => strip (lower a)) aliases)
         then Some id
         else alias_map self !! k.
Proof.
  split; [reflexivity|]. split; [reflexivity|].
  intros k. apply reg_alias_map_lookup.
Qed.

(** X3. After [reg id name aliases], on any calculator, every alias that
    was given resolves to [id], whatever it resolved to before. *)
Theorem reg_alias_resolves (id name : str) (aliases : list str)
    (self : FinancialCalculator) (a : str) :
  a ∈ aliases ->
  resolve_name (reg id name aliases self) a = Some id.
Proof.
  intros Ha. unfold resolve_name.
  rewrite reg_alias_map_lookup, decide_True; [reflexivity|].
  apply elem_of_cons. right. apply elem_of_cons. right.
  apply (list_elem_of_fmap_2 (fun a => strip (lower a))). exact Ha.
Qed.

(** ** The alias table of a new calculator *)

Lemma alias_keys_checked (k cid : str) :
  alias_map init !! k = Some cid ->
  key_of lower (registry init) k cid = true.
Proof.
  assert (check_keys lower (alias_map init) (registry init) = true) as H
    by (vm_compute; reflexivity).
  apply bool_decide_eq_true_1 in H. intros Hk. exact (H k cid Hk).
Qed.

Lemma resolved_registered d name key :
  resolve_name (with_data d) name = Some key ->
  key <> []
  /\ exists ind, registry init !! key = Some ind
                 /\ Indicator.id ind = key
                 /\ strip (lower name)
                      ∈ lower (Indicator.id ind)
                        :: lower (Indicator.display_name ind)
                        :: Indicator.aliases ind.
Proof.
  intros H. unfold resolve_name, alias_map at 1, with_data at 1 in H.
  apply alias_keys_checked in H. unfold key_of in H.
  destruct (registry init !! key) as [ind|] eqn:Hreg; [|discriminate].
  apply andb_true_iff in H as [Hid Hin].
  apply bool_decide_eq_true_1 in Hid, Hin.
  pose proof (registry_checked lower_special key ind Hreg) as Hc.
  unfold check_indicator in Hc.
  apply andb_true_iff in Hc as [Hc _].
  apply andb_true_iff in Hc as [_ Hne].
  apply negb_true_iff, bool_decide_eq_false_1 in Hne.
  split; [exact Hne|]. exists ind. split; [reflexivity|].
  split; [exact Hid | exact Hin].
Qed.

(** X4. On a calculator as constructed, a name resolves only to the id of
    a registered indicator, and only when its lower-cased, stripped form is
    that indicator's lower-cased id, lower-cased display name or one of its
    stored aliases. *)
Theorem resolve_name_sound (d : gmap str float) (name key : str) :
  resolve_name (with_data d) name = Some key ->
  exists ind, registry init !! key = Some ind
              /\ Indicator.id ind = key
              /\ strip (lower name)
                   ∈ lower (Indicator.id ind)
                     :: lower (Indicator.display_name ind)
                     :: Indicator.aliases ind.
Proof. intros H. exact (proj2 (resolved_registered d name key H)). Qed.

Lemma case_variant_refl s : case_variant s s = true.
Proof.
  induction s as [|c s IH]; [reflexivity|].
  simpl. rewrite IH. unfold recase. by rewrite N.eqb_refl.
Qed.

(** X5. No two indicators of the catalogue share a name: if a name of one
    registered indicator equals, up to letter case, a name of another, the
    two are the same indicator. *)
Theorem catalogue_names_disjoint (k1 k2 : str) (i1 i2 : Indicator.t)
    (s1 s2 : str) :
  registry init !! k1 = Some i1 ->
  registry init !! k2 = Some i2 ->
  s1 ∈ names i1 -> s2 ∈ names i2 ->
  case_variant s1 s2 = true ->
  k1 = k2.
Proof.
  intros H1 H2 Hs1 Hs2 Hv.
  destruct (resolve_name_spelling lower_special k1 i1 s1 s2 [] []
              H1 Hs1 Hv eq_refl eq_refl) as (_ & _ & R1).
  destruct (resolve_name_spelling lower_special k2 i2 s2 s2 [] []
              H2 Hs2 (case_variant_refl s2) eq_refl eq_refl)
    as (_ & _ & R2).
  specialize (R1 ∅). specialize (R2 ∅). rewrite R1 in R2. congruence.
Qed.


(** ** Writes and reads through spellings *)

Lemma get_value_spelling d ind key name :
  registry init !! key = Some ind -> spelling ind name ->
  get_value name (with_data d) = (Return (stored d key), with_data d, []).
Proof.
  intros Hreg Hsp.
  destruct (resolve_spelling lower_special ind key name Hreg Hsp)
    as [Hne Hres].
  destruct key as [|c key]; [congruence|].
  rewrite (get_value_resolved lower_special _ name c key (Hres d)).
  reflexivity.
Qed.

Lemma set_value_spelling d ind key name v :
  registry init !! key = Some ind -> spelling ind name ->
  set_value name v (with_data d)
  = (Return tt, with_data (<[ key := v ]> d),
     [SetLine (Indicator.display_name ind) key v]).
Proof.
  intros Hreg Hsp.
  destruct (resolve_spelling lower_special ind key name Hreg Hsp)
    as [Hne Hres].
  apply set_value_resolved; [apply Hres | exact Hne | exact Hreg].
Qed.

Lemma after_set_value_spelling d ind key name v :
  registry init !! key = Some ind -> spelling ind name ->
  after (set_value name v (with_data d)) = with_data (<[ key := v ]> d).
Proof.
  intros Hreg Hsp. rewrite (set_value_spelling d ind key name v Hreg Hsp).
  reflexivity.
Qed.

Lemma result_get_value_spelling d ind key name :
  registry init !! key = Some ind -> spelling ind name ->
  result (get_value name (with_data d)) = Return (stored d key).
Proof.
  intros Hreg Hsp. rewrite (get_value_spelling d ind key name Hreg Hsp).
  reflexivity.
Qed.

(** X7. Two writes to the same indicator, through any two of its
    spellings: the calculator afterwards is the one the second write alone
    gives, and a read through any spelling returns the second value. *)
Theorem set_value_overwrite (key : str) (ind : Indicator.t)
    (a1 a2 a3 : str) (v1 v2 : float) (d : gmap str float) :
  registry init !! key = Some ind ->
  spelling ind a1 -> spelling ind a2 -> spelling ind a3 ->
  after (set_value a2 v2 (after (set_value a1 v1 (with_data d))))
  = after (set_value a2 v2 (with_data d))
  /\ result (get_value a3
               (after (set_value a2 v2
                         (after (set_value a1 v1 (with_data d))))))
     = Return v2.
Proof.
  intros Hreg H1 H2 H3.
  rewrite (after_set_value_spelling d ind key a1 v1 Hreg H1).
  rewrite (after_set_value_spelling (<[ key := v1 ]> d) ind key a2 v2 Hreg H2).
  rewrite (after_set_value_spelling d ind key a2 v2 Hreg H2).
  rewrite insert_insert_eq. split; [reflexivity|].
  rewrite (result_get_value_spelling (<[ key := v2 ]> d) ind key a3 Hreg H3).
  unfold stored. by rewrite lookup_insert_eq.
Qed.

(** X8. A write to one indicator does not change what a read of another
    indicator returns. *)
Theorem set_value_other_indicator (k1 k2 : str) (i1 i2 : Indicator.t)
    (a1 a2 : str) (v : float) (d : gmap str float) :
  registry init !! k1 = Some i1 -> registry init !! k2 = Some i2 ->
  spelling i1 a1 -> spelling i2 a2 ->
  k1 <> k2 ->
  get_value a2 (after (set_value a1 v (with_data d)))
  = (Return (stored d k2), after (set_value a1 v (with_data d)), []).
Proof.
  intros H1 H2 Hs1 Hs2 Hne.
  rewrite (after_set_value_spelling d i1 k1 a1 v H1 Hs1).
  rewrite (get_value_spelling (<[ k1 := v ]> d) i2 k2 a2 H2 Hs2).
  unfold stored. by rewrite lookup_insert_ne.
Qed.

(** X9. Reads through two spellings of the same indicator agree on every
    store: both return what is stored under the indicator's id (0.0 when
    nothing is), print nothing and change nothing. *)
Theorem get_value_spellings_agree (key : str) (ind : Indicator.t)
    (a1 a2 : str) (d : gmap str float) :
  registry init !! key = Some ind ->
  spelling ind a1 -> spelling ind a2 ->
  get_value a1 (with_data d) = (Return (stored d key), with_data d, [])
  /\ get_value a2 (with_data d) = get_value a1 (with_data d).
Proof.
  intros Hreg H1 H2.
  rewrite (get_value_spelling d ind key a1 Hreg H1).
  rewrite (get_value_spelling d ind key a2 Hreg H2). split; reflexivity.
Qed.

(** X10. A [get_value] call anywhere in a run, with any name, on any
    calculator, does not change where the run ends. *)
Theorem get_value_transparent (cs1 cs2 : list Call) (name : str)
    (self : FinancialCalculator) :
  run_calls lower_special (cs1 ++ CallGetValue name :: cs2) self
  = run_calls lower_special (cs1 ++ cs2) self.
Proof.
  unfold run_calls. rewrite !fold_left_app. cbn [fold_left run_call].
  rewrite get_value_after. reflexivity.
Qed.

(** ** The derived totals *)

Ltac read_step :=
  match goal with
  | |- context [get_value ?name ?self] =>
    let x := fresh "x" in
    let out := fresh "out" in
    let E := fresh "E" in
    destruct (get_value_shape lower_special self name) as (x & out & E);
    [vm_compute; reflexivity|];
    rewrite E; clear E; cbv beta iota
  end.

Ltac read_constructed :=
  match goal with
  | |- context [get_value ?name (with_data ?d)] =>
    let r := eval vm_compute in (resolve_name (with_data d) name) in
    lazymatch r with
    | None =>
      rewrite (get_value_unresolved lower_special (with_data d) name)
        by (vm_compute; reflexivity)
    | Some (?c :: ?cid) =>
      rewrite (get_value_resolved lower_special (with_data d) name c cid)
        by (vm_compute; reflexivity)
    end; cbv beta iota
  end.

(** X11. On any calculator, each of the four formulas returns without
    raising, stores exactly the number it returns under its own key, and
    changes nothing else: not another entry of the store, not the registry,
    not the alias table. *)
Theorem calculate_stores_result (self : FinancialCalculator) :
  (exists x out,
     calculate_operational_cf lower_special self
     = (Return x,
        mkFC (<[ u "operation_cf" := x ]> (data self))
             (registry self) (alias_map self), out))
  /\ (exists x out,
        calculate_investing_cf lower_special self
        = (Return x,
           mkFC (<[ u "investing_cf" := x ]> (data self))
                (registry self) (alias_map self), out))
  /\ (exists x out,
        calculate_financing_cf lower_special self
        = (Return x,
           mkFC (<[ u "financing_cf" := x ]> (data self))
                (registry self) (alias_map self), out))
  /\ (exists x out,
        calculate_cash lower_special self
        = (Return x,
           mkFC (<[ u "cash" := x ]> (data self))
                (registry self) (alias_map self), out)).
Proof.
  split; [|split; [|split]].
  - unfold calculate_operational_cf, mbind, M_bind. cbv beta iota.
    repeat read_step. unfold data_setitem, mret, M_ret. cbv beta iota.
    eexists _, _. reflexivity.
  - unfold calculate_investing_cf, mbind, M_bind. cbv beta iota.
    repeat read_step. unfold data_setitem, mret, M_ret. cbv beta iota.
    eexists _, _. reflexivity.
  - unfold calculate_financing_cf, mbind, M_bind. cbv beta iota.
    repeat read_step. unfold data_setitem, mret, M_ret. cbv beta iota.
    eexists _, _. reflexivity.
  - unfold calculate_cash, mbind, M_bind. cbv beta iota.
    repeat read_step. unfold data_setitem, mret, M_ret. cbv beta iota.
    eexists _, _. reflexivity.
Qed.

Lemma operational_cf_constructed d :
  calculate_operational_cf lower_special (with_data d)
  = let x := (stored d (u "net_income") + stored d (u "depreciation_expence")
              + stored d (u "net_accounts_receivable")
              - stored d (u "inventory")
              - stored d (u "other_current_assets")
              + 0 - stored d (u "gain_loss_on_disposal_of_PPE"))%float in
    (Return x, with_data (<[ u "operation_cf" := x ]> d),
     [WarnLine (u "current_liabilities")]).
Proof.
  unfold calculate_operational_cf, mbind, M_bind. cbv beta iota.
  repeat read_constructed.
  unfold data_setitem, mret, M_ret, stored, with_data.
  cbv beta iota zeta. cbn [data registry alias_map app].
  f_equal; reflexivity.
Qed.

Lemma investing_cf_constructed d :
  calculate_investing_cf lower_special (with_data d)
  = let x := (- 0 + stored d (u "gain_loss_on_disposal_of_PPE")
              + stored d (u "depreciation_expence")
              - stored d (u "other_non_current_assets")
              + stored d (u "other_equity"))%float in
    (Return x, with_data (<[ u "investing_cf" := x ]> d),
     [WarnLine (u "net_property_plant_equipment")]).
Proof.
  unfold calculate_investing_cf, mbind, M_bind. cbv beta iota.
  repeat read_constructed.
  unfold data_setitem, mret, M_ret, stored, with_data.
  cbv beta iota zeta. cbn [data registry alias_map app].
  f_equal; reflexivity.
Qed.

Lemma financing_cf_constructed d :
  calculate_financing_cf lower_special (with_data d)
  = let x := (0 + stored d (u "contributed_capital")
              - stored d (u "dividends"))%float in
    (Return x, with_data (<[ u "financing_cf" := x ]> d),
     [WarnLine (u "non_current_liabilities")]).
Proof.
  unfold calculate_financing_cf, mbind, M_bind. cbv beta iota.
  repeat read_constructed.
  unfold data_setitem, mret, M_ret, stored, with_data.
  cbv beta iota zeta. cbn [data registry alias_map app].
  f_equal; reflexivity.
Qed.

Lemma cash_constructed d :
  calculate_cash lower_special (with_data d)
  = (Return 0%float, with_data (<[ u "cash" := 0%float ]> d),
     [WarnLine (u "operation_cf"); WarnLine (u "investing_cf");
      WarnLine (u "financing_cf")]).
Proof.
  unfold calculate_cash, mbind, M_bind. cbv beta iota.
  repeat read_constructed.
  unfold data_setitem, mret, M_ret, stored, with_data.
  cbv beta iota zeta. cbn [data registry alias_map app].
  f_equal; reflexivity.
Qed.

(** X12. On a calculator as constructed, whatever the store holds, every
    call of a formula prints the unknown-indicator warning for the same
    names: "current_liabilities" for the operating formula,
    "net_property_plant_equipment" for the investing one,
    "non_current_liabilities" for the financing one, and the three keys
    "operation_cf", "investing_cf" and "financing_cf" for the cash total. *)
Theorem calculate_warnings (d : gmap str float) :
  printed (calculate_operational_cf lower_special (with_data d))
  = [WarnLine (u "current_liabilities")]
  /\ printed (calculate_investing_cf lower_special (with_data d))
     = [WarnLine (u "net_property_plant_equipment")]
  /\ printed (calculate_financing_cf lower_special (with_data d))
     = [WarnLine (u "non_current_liabilities")]
  /\ printed (calculate_cash lower_special (with_data d))
     = [WarnLine (u "operation_cf"); WarnLine (u "investing_cf");
        WarnLine (u "financing_cf")].
Proof.
  rewrite operational_cf_constructed, investing_cf_constructed,
    financing_cf_constructed, cash_constructed.
  cbv zeta. unfold printed. cbn [snd]. repeat split; reflexivity.
Qed.

Ltac not_reserved :=
  let H := fresh "H" in
  intros H%list_elem_of_In; vm_compute in H; intuition discriminate.

Ltac is_reserved := apply list_elem_of_In; vm_compute; auto.

Lemma insert_reserved_agree (d : gmap str float) (key : str) (x : float) :
  key ∈ reserved_keys ->
  forall k, k ∉ reserved_keys -> <[ key := x ]> d !! k = d !! k.
Proof.
  intros Hkey k Hk. apply lookup_insert_ne. intros ->. contradiction.
Qed.

Lemma run_calls_no_set_value cs : forall d,
  no_set_value cs = true ->
  exists d', run_calls lower_special cs (with_data d) = with_data d'
             /\ forall k, k ∉ reserved_keys -> d' !! k = d !! k.
Proof.
  unfold run_calls, no_set_value.
  induction cs as [|c cs IH]; intros d Hcs; [by exists d|].
  cbn [forallb] in Hcs. apply andb_true_iff in Hcs as [Hc Hcs].
  cbn [fold_left].
  assert (exists d1, run_call lower_special (with_data d) c = with_data d1
                     /\ forall k, k ∉ reserved_keys -> d1 !! k = d !! k)
    as (d1 & -> & H1).
  { destruct c as [name value | name | | | |]; [discriminate|..];
      unfold run_call.
    - exists d. by rewrite get_value_after.
    - rewrite operational_cf_constructed. cbv zeta. unfold after.
      cbn [fst snd]. eexists. split; [reflexivity|].
      apply insert_reserved_agree. is_reserved.
    - rewrite investing_cf_constructed. cbv zeta. unfold after.
      cbn [fst snd]. eexists. split; [reflexivity|].
      apply insert_reserved_agree. is_reserved.
    - rewrite financing_cf_constructed. cbv zeta. unfold after.
      cbn [fst snd]. eexists. split; [reflexivity|].
      apply insert_reserved_agree. is_reserved.
    - rewrite cash_constructed. unfold after.
      cbn [fst snd]. eexists. split; [reflexivity|].
      apply insert_reserved_agree. is_reserved. }
  destruct (IH d1 Hcs) as (d' & -> & H').
  exists d'. split; [reflexivity|].
  intros k Hk. rewrite H' by exact Hk. apply H1, Hk.
Qed.

(** X13. On a calculator as constructed, a run of reads and formulas (no
    [set_value]) does not change what any of the four formulas returns
    afterwards: the totals depend on the raw inputs only, so they can be
    computed in any order and any number of times. *)
Theorem totals_independent_of_totals (cs : list Call)
    (d : gmap str float) :
  no_set_value cs = true ->
  result (calculate_operational_cf lower_special
            (run_calls lower_special cs (with_data d)))
  = result (calculate_operational_cf lower_special (with_data d))
  /\ result (calculate_investing_cf lower_special
               (run_calls lower_special cs (with_data d)))
     = result (calculate_investing_cf lower_special (with_data d))
  /\ result (calculate_financing_cf lower_special
               (run_calls lower_special cs (with_data d)))
     = result (calculate_financing_cf lower_special (with_data d))
  /\ result (calculate_cash lower_special
               (run_calls lower_special cs (with_data d)))
     = result (calculate_cash lower_special (with_data d)).
Proof.
  intros Hcs. destruct (run_calls_no_set_value cs d Hcs) as (d' & -> & Hd).
  rewrite !operational_cf_constructed, !investing_cf_constructed,
    !financing_cf_constructed, !cash_constructed.
  cbv zeta. unfold result, stored. cbn [fst].
  rewrite !Hd by not_reserved. repeat split; reflexivity.
Qed.

Lemma reserved_not_registered k :
  k ∈ reserved_keys -> registry init !! k = None.
Proof.
  intros H%list_elem_of_In. unfold reserved_keys in H. cbn [In] in H.
  destruct H as [<- | [<- | [<- | [<- | []]]]]; vm_compute; reflexivity.
Qed.

(** X14. On a calculator as constructed, the four keys of the derived
    totals are out of reach of the name-based interface: no name makes
    [get_value] return what is stored under such a key, and no call of
    [set_value] changes what is stored under it. *)
Theorem reserved_keys_hidden (k : str) :
  k ∈ reserved_keys ->
  (forall (name : str) (d : gmap str float) (x : float),
     result (get_value name (with_data (<[ k := x ]> d)))
     = result (get_value name (with_data d)))
  /\ (forall (name : str) (v : float) (d : gmap str float),
        data (after (set_value name v (with_data d))) !! k = d !! k).
Proof.
  intros Hk. pose proof (reserved_not_registered k Hk) as Hnone. split.
  - intros name d x.
    destruct (resolve_name (with_data d) name) as [key|] eqn:E.
    + destruct (resolved_registered d name key E)
        as (Hne & ind & Hreg & _ & _).
      destruct key as [|c key]; [congruence|].
      rewrite (get_value_resolved lower_special (with_data d) name c key E).
      match goal with
      | |- context [get_value name ?self] =>
        rewrite (get_value_resolved lower_special self name c key E)
      end.
      unfold result, with_data. cbn [fst data]. f_equal. f_equal.
      apply lookup_insert_ne. intros ->. congruence.
    + rewrite (get_value_unresolved_any lower_special (with_data d) name E).
      match goal with
      | |- context [get_value name ?self] =>
        rewrite (get_value_unresolved_any lower_special self name E)
      end.
      destruct (encodable name); reflexivity.
  - intros name v d.
    destruct (resolve_name (with_data d) name) as [key|] eqn:E.
    + destruct (resolved_registered d name key E)
        as (Hne & ind & Hreg & _ & _).
      rewrite (set_value_resolved lower_special d name key ind v E Hne Hreg).
      unfold after, with_data. cbn [fst snd data].
      apply lookup_insert_ne. intros ->. congruence.
    + rewrite (set_value_unresolved lower_special (with_data d) name v E).
      reflexivity.
Qed.

End Further.

(** ** Concrete instances *)

(** X1 at an unregistered name. *)
Lemma resolve_name_case_padding_witness :
  resolve_name keep_special (FinancialCalculator_init keep_special)
    (u " " ++ u "Current_Liabilities" ++ u "  ")
  = resolve_name keep_special (FinancialCalculator_init keep_special)
      (u "current_liabilities").
Proof.
  apply (resolve_name_case_padding keep_special
           (FinancialCalculator_init keep_special)
           (u "current_liabilities") (u "Current_Liabilities")
           (u " ") (u "  ")); vm_compute; reflexivity.
Defined.

(** X3 at a registration on top of the catalogue that takes over "NI". *)
Lemma reg_alias_resolves_witness :
  resolve_name keep_special
    (reg keep_special (u "nickel") (u "Nickel") [u "Ni"; u " NKL "]
       (FinancialCalculator_init keep_special))
    (u "Ni")
  = Some (u "nickel").
Proof.
  apply (reg_alias_resolves keep_special (u "nickel") (u "Nickel")
           [u "Ni"; u " NKL "] (FinancialCalculator_init keep_special)
           (u "Ni")).
  apply list_elem_of_In. vm_compute. auto.
Defined.

(** X4 at " ncl ". *)
Lemma resolve_name_sound_witness :
  exists ind,
    registry (FinancialCalculator_init keep_special)
      !! u "non-current liabilities" = Some ind
    /\ Indicator.id ind = u "non-current liabilities"
    /\ strip (lower keep_special (u " ncl "))
         ∈ lower keep_special (Indicator.id ind)
           :: lower keep_special (Indicator.display_name ind)
           :: Indicator.aliases ind.
Proof.
  apply (resolve_name_sound keep_special ∅ (u " ncl ")
           (u "non-current liabilities")).
  vm_compute; reflexivity.
Defined.

(** X5 at the id "Cash" and the stored alias "cash" of the same
    indicator. *)
Lemma catalogue_names_disjoint_witness : u "Cash" = u "Cash".
Proof.
  apply (catalogue_names_disjoint keep_special (u "Cash") (u "Cash")
           (Indicator_init keep_special (u "Cash") (u "Денежные средства")
              [u "delCash"; u "C"; u "delC"; u "Cash"])
           (Indicator_init keep_special (u "Cash") (u "Денежные средства")
              [u "delCash"; u "C"; u "delC"; u "Cash"])
           (u "Cash") (u "cash")).
  - vm_compute; reflexivity.
  - vm_compute; reflexivity.
  - apply list_elem_of_In. vm_compute. auto.
  - apply list_elem_of_In. vm_compute. auto 10.
  - vm_compute; reflexivity.
Defined.

(** X7 at two writes of net income, through "NI" and "net income". *)
Lemma set_value_overwrite_witness :
  after (set_value keep_special (u "net income") 2%float
           (after (set_value keep_special (u "NI") 1%float
                     (with_data keep_special ∅))))
  = after (set_value keep_special (u "net income") 2%float
             (with_data keep_special ∅))
  /\ result (get_value keep_special (u "Net Income")
               (after (set_value keep_special (u "net income") 2%float
                         (after (set_value keep_special (u "NI") 1%float
                                   (with_data keep_special ∅))))))
     = Return 2%float.
Proof.
  apply (set_value_overwrite keep_special (u "net_income")
           (Indicator_init keep_special (u "net_income") (u "Чистая прибыль")
              [u "delNetIncome"; u "NI"; u "Net Income"; u "net income"])
           (u "NI") (u "net income") (u "Net Income") 1%float 2%float ∅).
  - vm_compute; reflexivity.
  - exists (u "ni"), (u "NI"), [], [].
    split; [apply list_elem_of_In; vm_compute; auto 10|].
    repeat split; vm_compute; reflexivity.
  - exists (u "net income"), (u "net income"), [], [].
    split; [apply list_elem_of_In; vm_compute; auto 10|].
    repeat split; vm_compute; reflexivity.
  - exists (u "net income"), (u "Net Income"), [], [].
    split; [apply list_elem_of_In; vm_compute; auto 10|].
    repeat split; vm_compute; reflexivity.
Defined.

(** X8 at a write of net income and a read of inventory. *)
Lemma set_value_other_indicator_witness :
  get_value keep_special (u "Inv")
    (after (set_value keep_special (u "NI") 1%float
              (with_data keep_special ∅)))
  = (Return (stored ∅ (u "inventory")),
     after (set_value keep_special (u "NI") 1%float
              (with_data keep_special ∅)), []).
Proof.
  apply (set_value_other_indicator keep_special
           (u "net_income") (u "inventory")
           (Indicator_init keep_special (u "net_income") (u "Чистая прибыль")
              [u "delNetIncome"; u "NI"; u "Net Income"; u "net income"])
           (Indicator_init keep_special (u "inventory")
              (u "Товарно-материальные запасы")
              [u "delInventory"; u "Inv"; u "delInv"; u "Inventory"])
           (u "NI") (u "Inv") 1%float ∅).
  - vm_compute; reflexivity.
  - vm_compute; reflexivity.
  - exists (u "ni"), (u "NI"), [], [].
    split; [apply list_elem_of_In; vm_compute; auto 10|].
    repeat split; vm_compute; reflexivity.
  - exists (u "inv"), (u "Inv"), [], [].
    split; [apply list_elem_of_In; vm_compute; auto 10|].
    repeat split; vm_compute; reflexivity.
  - intros H. vm_compute in H. discriminate.
Defined.

(** X9 at "NI" and " Net Income " on a store that holds net income. *)
Lemma get_value_spellings_agree_witness :
  get_value keep_special (u "NI")
    (with_data keep_special (<[ u "net_income" := 100%float ]> ∅))
  = (Return (stored (<[ u "net_income" := 100%float ]> ∅) (u "net_income")),
     with_data keep_special (<[ u "net_income" := 100%float ]> ∅), [])
  /\ get_value keep_special (u " Net Income ")
       (with_data keep_special (<[ u "net_income" := 100%float ]> ∅))
     = get_value keep_special (u "NI")
         (with_data keep_special (<[ u "net_income" := 100%float ]> ∅)).
Proof.
  apply (get_value_spellings_agree keep_special (u "net_income")
           (Indicator_init keep_special (u "net_income") (u "Чистая прибыль")
              [u "delNetIncome"; u "NI"; u "Net Income"; u "net income"])
           (u "NI") (u " Net Income ")).
  - vm_compute; reflexivity.
  - exists (u "ni"), (u "NI"), [], [].
    split; [apply list_elem_of_In; vm_compute; auto 10|].
    repeat split; vm_compute; reflexivity.
  - exists (u "net income"), (u "Net Income"), (u " "), (u " ").
    split; [apply list_elem_of_In; vm_compute; auto 10|].
    repeat split; vm_compute; reflexivity.
Defined.

(** X13 at the run: cash total, operating formula, a read. *)
Lemma totals_independent_of_totals_witness :
  no_set_value [CallCash; CallOperationalCF; CallGetValue (u "cash")] = true
  /\ result (calculate_cash keep_special
               (run_calls keep_special
                  [CallCash; CallOperationalCF; CallGetValue (u "cash")]
                  (with_data keep_special ∅)))
     = result (calculate_cash keep_special (with_data keep_special ∅)).
Proof.
  split; [reflexivity|].
  apply (totals_independent_of_totals keep_special
           [CallCash; CallOperationalCF; CallGetValue (u "cash")] ∅).
  reflexivity.
Defined.

(** X14 at the key "cash". *)
Lemma reserved_keys_hidden_witness :
  u "cash" ∈ reserved_keys
  /\ forall (name : str) (v : float) (d : gmap str float),
       data (after (set_value keep_special name v
                      (with_data keep_special d))) !! u "cash"
       = d !! u "cash".
Proof.
  assert (u "cash" ∈ reserved_keys) as H
    by (apply list_elem_of_In; vm_compute; auto).
  split; [exact H|].
  apply (reserved_keys_hidden keep_special (u "cash") H).
Defined.
